(** * libvirt_admin_generated_typedefs.h: the version-gated admin typedefs

    The verified object is the generated C header
    [vendor/libvirt.org/go/libvirt/libvirt_admin_generated_typedefs.h].
    Its whole behaviour happens in the C preprocessor and in the
    declaration pass of the compiler, so the development embeds

    - the header itself, directive by directive and token by token,
    - the part of the preprocessor the header exercises ([#pragma once],
      [#if] / [#endif], function-like macro calls, [#include]),
    - the typedef declarations that survive preprocessing and the symbol
      table the compiler builds from them,

    and proves the properties of the header over that embedding. *)

From stdpp Require Import base gmap strings list.

Open Scope string_scope.
Open Scope N_scope.
Open Scope list_scope.

(** ** Results of a translation phase *)

Inductive error : Set :=
| EBadCondition      (* the controlling expression of an #if is not a constant expression *)
| EBadMacroCall      (* macro invoked with the wrong number or shape of arguments *)
| EUnbalancedEndif   (* #endif without #if *)
| EUnterminatedIf    (* end of file inside a conditional group *)
| EMissingFile       (* #include of a file that does not exist *)
| EIncludeDepth      (* #include nested too deeply *)
| ESyntax            (* a line that is not one of the declarations modelled *)
| EUnknownType (name : string)    (* use of an undeclared type name *)
| ERedefinition (name : string).  (* a second definition of a typedef name *)

Inductive result (A : Type) : Type :=
| Ok (a : A)
| Err (e : error).
Arguments Ok {A} a.
Arguments Err {A} e.

#[global] Instance result_ret : MRet result := fun _ a => Ok a.

#[global] Instance result_bind : MBind result := fun _ _ k r =>
  match r with
  | Ok a => k a
  | Err e => Err e
  end.

Definition of_option {A : Type} (e : error) (o : option A) : result A :=
  match o with
  | Some a => Ok a
  | None => Err e
  end.

(** ** Preprocessing tokens and lines *)

Module Cpp.

Inductive token : Set :=
| TIdent (s : string)   (* identifier or keyword *)
| TNum (n : N)          (* integer constant *)
| TLParen
| TRParen
| TComma
| TBang
| TStar
| TSemi.

Inductive line : Set :=
| DPragmaOnce                  (* #pragma once *)
| DIf (cond : list token)      (* #if cond *)
| DEndif                       (* #endif *)
| DInclude (file : string)     (* #include "file" *)
| Text (toks : list token).    (* any line that is not a directive *)

#[global] Instance token_eq_dec : EqDecision token.
Proof. solve_decision. Defined.

#[global] Instance line_eq_dec : EqDecision line.
Proof. solve_decision. Defined.

(** A function-like macro of the build environment.  Only macros that are
    invoked on integer constants and expand to an integer constant are
    modelled; the macro is then its arity and the value it computes. *)
Inductive macro : Type :=
| FunMacro (arity : nat) (value : list N -> N).

Abbreviation macros := (gmap string macro).
Abbreviation files := (gmap string (list line)).

(** Macro expansion of a token sequence.  An identifier naming a
    function-like macro is replaced, together with its parenthesised
    arguments, when it is followed by [(]; every other token is kept. *)
Fixpoint expand (env : macros) (toks : list token) : option (list token) :=
  match toks with
  | [] => Some []
  | TIdent s :: rest =>
      match env !! s, rest with
      | Some (FunMacro n f), TLParen :: rest' => call_args env n f [] rest'
      | _, _ => cons (TIdent s) <$> expand env rest
      end
  | t :: rest => cons t <$> expand env rest
  end
with call_args (env : macros) (n : nat) (f : list N -> N) (acc : list N)
       (toks : list token) : option (list token) :=
  match toks with
  | TNum a :: TComma :: rest => call_args env n f (acc ++ [a]) rest
  | TNum a :: TRParen :: rest =>
      if decide (length (acc ++ [a]) = n)
      then cons (TNum (f (acc ++ [a]))) <$> expand env rest
      else None
  | _ => None
  end.

(** After expansion, in an [#if], every remaining identifier is replaced by
    the constant 0. *)
Definition zero_ident (t : token) : token :=
  match t with
  | TIdent _ => TNum 0
  | _ => t
  end.

(** The constant expressions of the header: integer constants, logical
    negation and parentheses.  The parser returns the value together with
    the tokens it did not consume. *)
Fixpoint parse_unary (toks : list token) : option (N * list token) :=
  match toks with
  | TNum n :: rest => Some (n, rest)
  | TBang :: rest =>
      match parse_unary rest with
      | Some (v, r) => Some (if v =? 0 then 1 else 0, r)
      | None => None
      end
  | TLParen :: rest =>
      match parse_unary rest with
      | Some (v, TRParen :: r) => Some (v, r)
      | _ => None
      end
  | _ => None
  end.

(** The controlling expression of an [#if]: expand, zero the identifiers
    left over, parse; tokens left after the expression are an error. *)
Definition eval_if (env : macros) (cond : list token) : result bool :=
  ts ← of_option EBadMacroCall (expand env cond);
  match parse_unary (zero_ident <$> ts) with
  | Some (v, []) => Ok (negb (v =? 0))
  | _ => Err EBadCondition
  end.

(** State of the preprocessor across files: the files marked
    [#pragma once] and the lines emitted so far (in order). *)
Record pp_state : Type := PPState {
  once : gset string;
  out : list (list token)
}.

Definition mark_once (file : string) (st : pp_state) : pp_state :=
  PPState ({[ file ]} ∪ once st) (out st).

Definition emit (ts : list token) (st : pp_state) : pp_state :=
  PPState (once st) (out st ++ [ts]).

(** The lines of one file.  [stack] holds, innermost first, whether each
    open conditional group was taken; a line is live when every enclosing
    group was.  [inc] processes an [#include]. *)
Fixpoint pp_lines (inc : string -> pp_state -> result pp_state)
    (env : macros) (file : string) (stack : list bool)
    (ls : list line) (st : pp_state) : result pp_state :=
  match ls with
  | [] =>
      match stack with
      | [] => Ok st
      | _ :: _ => Err EUnterminatedIf
      end
  | l :: ls' =>
      let live := forallb id stack in
      match l with
      | DPragmaOnce =>
          pp_lines inc env file stack ls'
            (if live then mark_once file st else st)
      | DIf c =>
          if live
          then b ← eval_if env c; pp_lines inc env file (b :: stack) ls' st
          else pp_lines inc env file (false :: stack) ls' st
      | DEndif =>
          match stack with
          | [] => Err EUnbalancedEndif
          | _ :: stack' => pp_lines inc env file stack' ls' st
          end
      | DInclude f =>
          if live
          then st' ← inc f st; pp_lines inc env file stack ls' st'
          else pp_lines inc env file stack ls' st
      | Text ts =>
          if live
          then ts' ← of_option EBadMacroCall (expand env ts);
               pp_lines inc env file stack ls' (emit ts' st)
          else pp_lines inc env file stack ls' st
      end
  end.

(** [#include]: a file already marked [#pragma once] is skipped. *)
Fixpoint pp_include (depth : nat) (fs : files) (env : macros)
    (file : string) (st : pp_state) : result pp_state :=
  match depth with
  | O => Err EIncludeDepth
  | S depth' =>
      if decide (file ∈ once st) then Ok st
      else
        ls ← of_option EMissingFile (fs !! file);
        pp_lines (pp_include depth' fs env) env file [] ls st
  end.

Definition include_depth : nat := 200.

(** Preprocessing of a translation unit given by the lines of its main
    file: the emitted lines. *)
Definition preprocess (fs : files) (env : macros) (main : list line)
    : result (list (list token)) :=
  st ← pp_lines (pp_include include_depth fs env) env "<main>" [] main
         (PPState ∅ []);
  Ok (out st).

End Cpp.

(** ** Declarations and the symbol table *)

Module Decl.
Import Cpp.

Inductive ctype : Set :=
| TStruct (tag : string)    (* struct tag, possibly incomplete *)
| TNamed (name : string)    (* a typedef name *)
| TPtr (t : ctype).         (* pointer to t *)

Record typedef : Set := Typedef {
  td_type : ctype;
  td_name : string
}.

#[global] Instance ctype_eq_dec : EqDecision ctype.
Proof. solve_decision. Defined.

#[global] Instance typedef_eq_dec : EqDecision typedef.
Proof. solve_decision. Defined.

(** The two shapes of declaration in the header:
    [typedef struct TAG NAME;] and [typedef BASE * NAME;]. *)
Definition parse_typedef (ts : list token) : option typedef :=
  match ts with
  | [TIdent kw; TIdent s; TIdent tag; TIdent name; TSemi] =>
      if decide (kw = "typedef" ∧ s = "struct")
      then Some (Typedef (TStruct tag) name)
      else None
  | [TIdent kw; TIdent base; TStar; TIdent name; TSemi] =>
      if decide (kw = "typedef")
      then Some (Typedef (TPtr (TNamed base)) name)
      else None
  | _ => None
  end.

Definition names (syms : list typedef) : list string := td_name <$> syms.

(** An opaque struct type; a pointer alias. *)
Definition is_opaque (d : typedef) : bool :=
  match td_type d with
  | TStruct _ => true
  | _ => false
  end.

Definition is_alias (d : typedef) : bool :=
  match td_type d with
  | TPtr _ => true
  | _ => false
  end.

(** The pointer aliases among declarations: name of the type pointed to
    and name of the alias. *)
Definition pointer_aliases (ds : list typedef) : list (string * string) :=
  omap (fun d => match td_type d with
                 | TPtr (TNamed b) => Some (b, td_name d)
                 | _ => None
                 end) ds.

(** A struct tag may be used before the struct is defined (it declares an
    incomplete type); a typedef name must already be visible. *)
Fixpoint type_ok (syms : list typedef) (t : ctype) : result unit :=
  match t with
  | TStruct _ => Ok ()
  | TNamed n => if decide (n ∈ names syms) then Ok () else Err (EUnknownType n)
  | TPtr t' => type_ok syms t'
  end.

(** One declaration: the type it names must be visible and the new name
    must not be defined yet.  The table keeps declaration order. *)
Definition declare (syms : list typedef) (d : typedef) : result (list typedef) :=
  _ ← type_ok syms (td_type d);
  if decide (td_name d ∈ names syms)
  then Err (ERedefinition (td_name d))
  else Ok (syms ++ [d]).

Fixpoint declare_all (syms : list typedef) (lines : list (list token))
    : result (list typedef) :=
  match lines with
  | [] => Ok syms
  | ts :: rest =>
      d ← of_option ESyntax (parse_typedef ts);
      syms' ← declare syms d;
      declare_all syms' rest
  end.

(** Preprocess, then declare: the typedefs of the translation unit, in
    order of declaration. *)
Definition translate (fs : files) (env : macros) (main : list line)
    : result (list typedef) :=
  lines ← preprocess fs env main;
  declare_all [] lines.

End Decl.

(** ** The header *)

Module Header.
Import Cpp.

Definition file_name : string := "libvirt_admin_generated_typedefs.h".

(** The directives and declarations of the header with their line numbers
    in the file (lines 1 to 28 are comments, the others are empty). *)
Definition source : list (nat * line) := [
  (29%nat, DPragmaOnce);

  (31%nat, DIf [TBang; TIdent "LIBVIR_CHECK_VERSION"; TLParen;
                TNum 2; TComma; TNum 0; TComma; TNum 0; TRParen]);
  (32%nat, Text [TIdent "typedef"; TIdent "struct"; TIdent "_virAdmClient";
                 TIdent "virAdmClient"; TSemi]);
  (33%nat, DEndif);

  (35%nat, DIf [TBang; TIdent "LIBVIR_CHECK_VERSION"; TLParen;
                TNum 2; TComma; TNum 0; TComma; TNum 0; TRParen]);
  (36%nat, Text [TIdent "typedef"; TIdent "struct"; TIdent "_virAdmConnect";
                 TIdent "virAdmConnect"; TSemi]);
  (37%nat, DEndif);

  (39%nat, DIf [TBang; TIdent "LIBVIR_CHECK_VERSION"; TLParen;
                TNum 2; TComma; TNum 0; TComma; TNum 0; TRParen]);
  (40%nat, Text [TIdent "typedef"; TIdent "struct"; TIdent "_virAdmServer";
                 TIdent "virAdmServer"; TSemi]);
  (41%nat, DEndif);

  (43%nat, DIf [TBang; TIdent "LIBVIR_CHECK_VERSION"; TLParen;
                TNum 2; TComma; TNum 0; TComma; TNum 0; TRParen]);
  (44%nat, Text [TIdent "typedef"; TIdent "virAdmClient"; TStar;
                 TIdent "virAdmClientPtr"; TSemi]);
  (45%nat, DEndif);

  (47%nat, DIf [TBang; TIdent "LIBVIR_CHECK_VERSION"; TLParen;
                TNum 2; TComma; TNum 0; TComma; TNum 0; TRParen]);
  (48%nat, Text [TIdent "typedef"; TIdent "virAdmConnect"; TStar;
                 TIdent "virAdmConnectPtr"; TSemi]);
  (49%nat, DEndif);

  (51%nat, DIf [TBang; TIdent "LIBVIR_CHECK_VERSION"; TLParen;
                TNum 2; TComma; TNum 0; TComma; TNum 0; TRParen]);
  (52%nat, Text [TIdent "typedef"; TIdent "virAdmServer"; TStar;
                 TIdent "virAdmServerPtr"; TSemi]);
  (53%nat, DEndif)
].

Definition header : list line := source.*2.

(** The non-directive lines of a file. *)
Definition text_lines (ls : list line) : list (list token) :=
  omap (fun l => match l with Text ts => Some ts | _ => None end) ls.

(** A file system holding the header, and the translation unit that
    includes it once. *)
Definition fs : files := {[ file_name := header ]}.

Definition unit_once : list line := [DInclude file_name].

(** A second header that includes this one, for translation units that
    reach the header through another file. *)
Definition wrapper_name : string := "wrapper.h".

Definition fs_wrapped : files := <[ wrapper_name := [DInclude file_name] ]> fs.

End Header.

(** ** Conditional structure of a file *)

Module Scope.
Import Cpp Decl.

(** Where a declaration stands: its line, the lines of the [#if]
    directives whose groups enclose it (innermost first) and the
    declaration itself. *)
Record site : Set := Site {
  s_line : nat;
  s_scope : list nat;
  s_decl : typedef
}.

(** The declarations of a file, live or not, each with its site. *)
Fixpoint sites (stack : list nat) (ls : list (nat * line)) : list site :=
  match ls with
  | [] => []
  | (n, DIf _) :: r => sites (n :: stack) r
  | (_, DEndif) :: r => sites (tail stack) r
  | (n, Text ts) :: r =>
      match parse_typedef ts with
      | Some d => Site n stack d :: sites stack r
      | None => sites stack r
      end
  | _ :: r => sites stack r
  end.

(** The site of the first declaration of [name]. *)
Definition decl_site (ls : list (nat * line)) (name : string) : option site :=
  head (filter (fun s => td_name (s_decl s) = name) (sites [] ls)).

(** The [#if] directives of a file: line and controlling expression. *)
Definition guards (ls : list (nat * line)) : list (nat * list token) :=
  omap (fun l => match l.2 with DIf c => Some (l.1, c) | _ => None end) ls.

Definition guard_at (ls : list (nat * line)) (n : nat) : option (list token) :=
  snd <$> head (filter (fun g => g.1 = n) (guards ls)).

(** [alias] is declared in the conditional group that holds the declaration
    of [base], after it. *)
Definition same_scope_after (ls : list (nat * line)) (base alias : string) : bool :=
  match decl_site ls base, decl_site ls alias with
  | Some b, Some a =>
      bool_decide (s_scope a = s_scope b ∧ s_scope b ≠ [] ∧ (s_line b < s_line a)%nat)
  | _, _ => false
  end.

(** [alias] is declared in a group of its own, later in the file than the
    group of [base], and the two groups are controlled by the same
    expression. *)
Definition same_guard_after (ls : list (nat * line)) (base alias : string) : bool :=
  match decl_site ls base, decl_site ls alias with
  | Some b, Some a =>
      match s_scope b, s_scope a with
      | [gb], [ga] =>
          bool_decide ((gb < s_line b)%nat ∧ (s_line b < ga)%nat ∧ (ga < s_line a)%nat
                       ∧ is_Some (guard_at ls gb)
                       ∧ guard_at ls gb = guard_at ls ga)
      | _, _ => false
      end
  | _, _ => false
  end.

End Scope.

(** ** The target library *)

Module Libvirt.
Import Cpp Decl.

Record version : Set := Version {
  major : N;
  minor : N;
  micro : N
}.

#[global] Instance version_eq_dec : EqDecision version.
Proof. solve_decision. Defined.

(** [a] is at most [b]: major first, then minor, then micro. *)
Definition version_le (a b : version) : bool :=
  (major a <? major b)
  || ((major a =? major b)
      && ((minor a <? minor b)
          || ((minor a =? minor b) && (micro a <=? micro b)))).

(** [a] is strictly below [b]. *)
Definition version_lt (a b : version) : bool := negb (version_le b a).

(** Modelled from the spec: the version predicate [LIBVIR_CHECK_VERSION] is
    defined by the headers of the target library, not by this repository.
    Given (major, minor, patch) it tells whether the configured target
    library version is at least that version. *)
Definition LIBVIR_CHECK_VERSION (target : version) (major minor micro : N) : bool :=
  version_le (Version major minor micro) target.

(** A build environment whose only macro is a three-argument version
    predicate [chk]. *)
Definition predicate_env (chk : N -> N -> N -> bool) : macros :=
  {[ "LIBVIR_CHECK_VERSION" :=
       FunMacro 3 (fun args =>
         match args with
         | [a; b; c] => if chk a b c then 1 else 0
         | _ => 0
         end) ]}.

(** The build environment of a target library of version [target]. *)
Definition libvirt_headers (target : version) : macros :=
  predicate_env (LIBVIR_CHECK_VERSION target).

(** [t] is one patch level below [v]: [v] is the release that follows [t]
    by one micro step, or [v] opens a minor (or major) series and [t] is a
    release of the series just before it. *)
Definition patch_below (t v : version) : bool :=
  ((major t =? major v) && (minor t =? minor v) && (micro t + 1 =? micro v))
  || ((micro v =? 0) && (major t =? major v) && (minor t + 1 =? minor v))
  || ((micro v =? 0) && (minor v =? 0) && (major t + 1 =? major v)).

(** The version triple a guard [! LIBVIR_CHECK_VERSION (M, m, p)] tests. *)
Definition guard_version (c : list token) : option version :=
  match c with
  | [TBang; TIdent f; TLParen; TNum a; TComma; TNum b; TComma; TNum c; TRParen] =>
      if decide (f = "LIBVIR_CHECK_VERSION") then Some (Version a b c) else None
  | _ => None
  end.

End Libvirt.

(** ** The handle kinds of the admin API *)

Module Admin.
Import Cpp Decl Scope Libvirt Header.

Inductive handle : Set := Client | Connect | Server.

Definition handles : list handle := [Client; Connect; Server].

Definition handle_name (k : handle) : string :=
  match k with
  | Client => "virAdmClient"
  | Connect => "virAdmConnect"
  | Server => "virAdmServer"
  end.

Definition alias_name (k : handle) : string := handle_name k +:+ "Ptr".

(** The opaque type of a handle kind and its pointer alias. *)
Definition opaque_decl (k : handle) : typedef :=
  Typedef (TStruct ("_" +:+ handle_name k)) (handle_name k).

Definition alias_decl (k : handle) : typedef :=
  Typedef (TPtr (TNamed (handle_name k))) (alias_name k).

(** The version at which the library itself supplies the handle: the
    triple tested by the guard around its declaration in the header. *)
Definition introduced_version (k : handle) : option version :=
  s ← decl_site source (handle_name k);
  g ← head (s_scope s);
  c ← guard_at source g;
  guard_version c.

(** What the header contributes to a translation unit that includes it,
    for a build environment and for a target library version. *)
Definition shim_in (env : macros) : result (list typedef) :=
  translate fs env unit_once.

Definition shim (target : version) : result (list typedef) :=
  shim_in (libvirt_headers target).

(** The preprocessor state once the header has been included in an
    otherwise empty unit, under a version predicate [chk]. *)
Definition included (chk : N -> N -> N -> bool) : pp_state :=
  PPState ({[ file_name ]} ∪ ∅)
          ([] ++ if chk 2 0 0 then [] else text_lines header).

(** The six declarations in the order of the header. *)
Definition all_six : list typedef :=
  (opaque_decl <$> handles) ++ (alias_decl <$> handles).

End Admin.

(** ** Translation units around the header *)

Module Unit.
Import Cpp Decl Header.

(** A unit without its direct inclusions of the header. *)
Definition strip (ls : list line) : list line :=
  filter (fun l => l ≠ DInclude file_name) ls.

(** Two preprocessor states with the same output and the same marks,
    but for the mark of the header. *)
Definition agree (st1 st2 : pp_state) : Prop :=
  out st1 = out st2
  ∧ ∀ g, g ≠ file_name → (g ∈ once st1 ↔ g ∈ once st2).

Definition agree_res (r1 r2 : result pp_state) : Prop :=
  match r1, r2 with
  | Ok s1, Ok s2 => agree s1 s2
  | Err e1, Err e2 => e1 = e2
  | _, _ => False
  end.

(** The opaque struct types among declarations: struct tag and name of
    the type. *)
Definition struct_tags (ds : list typedef) : list (string * string) :=
  omap (fun d => match td_type d with
                 | TStruct tag => Some (tag, td_name d)
                 | _ => None
                 end) ds.

(** The first name of [ns] that the table [syms] already declares. *)
Definition first_clash (syms : list typedef) (ns : list string) : option string :=
  head (filter (fun n => n ∈ names syms) ns).

End Unit.

Import Cpp Decl Scope Libvirt Header Admin.
Import Unit.

(** * Properties *)

(** ** The version order *)

Section VersionOrder.

(** [version_le] is the lexicographic order on the three components. *)
Lemma version_le_lex (a b : version) :
  version_le a b = true <->
  major a < major b
  \/ (major a = major b
      /\ (minor a < minor b \/ (minor a = minor b /\ micro a <= micro b))).
Proof.
  unfold version_le.
  rewrite orb_true_iff, andb_true_iff, orb_true_iff, andb_true_iff.
  rewrite !N.ltb_lt, !N.eqb_eq, N.leb_le. reflexivity.
Qed.

Lemma version_lt_lex (a b : version) :
  version_lt a b = true <->
  major a < major b
  \/ (major a = major b
      /\ (minor a < minor b \/ (minor a = minor b /\ micro a < micro b))).
Proof.
  unfold version_lt. rewrite negb_true_iff, <- not_true_iff_false.
  rewrite version_le_lex. lia.
Qed.

Lemma version_le_refl (v : version) : version_le v v = true.
Proof. rewrite version_le_lex. lia. Qed.

Lemma version_lt_irrefl (v : version) : version_lt v v = false.
Proof. unfold version_lt. now rewrite version_le_refl. Qed.

Lemma version_le_total (a b : version) :
  version_le a b = true \/ version_le b a = true.
Proof. rewrite !version_le_lex. lia. Qed.

Lemma version_le_trans (a b c : version) :
  version_le a b = true -> version_le b c = true -> version_le a c = true.
Proof. rewrite !version_le_lex. lia. Qed.

Lemma version_le_antisym (a b : version) :
  version_le a b = true -> version_le b a = true -> a = b.
Proof.
  rewrite !version_le_lex. destruct a, b; simpl. intros H1 H2.
  f_equal; lia.
Qed.

(** One patch level below is strictly below. *)
Lemma patch_below_lt (t v : version) :
  patch_below t v = true -> version_lt t v = true.
Proof.
  unfold patch_below. rewrite version_lt_lex.
  rewrite !orb_true_iff, !andb_true_iff, !N.eqb_eq. lia.
Qed.

End VersionOrder.

(** ** The preprocessor on the header *)

Section Preprocessing.

(** Expansion leaves a line without [(] as it is: no macro is called. *)
Lemma expand_no_call (env : macros) (ts : list token) :
  TLParen ∉ ts → expand env ts = Some ts.
Proof.
  induction ts as [| t ts IH]; [reflexivity |].
  intros H. apply not_elem_of_cons in H as [Ht H].
  specialize (IH H).
  destruct t; cbn [expand]; try (rewrite IH; reflexivity).
  destruct (env !! s) as [[n f] |]; [| rewrite IH; reflexivity].
  destruct ts as [| t' ts']; [reflexivity |].
  destruct t'; try (rewrite IH; reflexivity).
  exfalso. apply H. left.
Qed.

(** A guard where the predicate is not defined: [LIBVIR_CHECK_VERSION]
    becomes 0, the parser reads [! 0] and stops in front of [(a, b, c)]. *)
Lemma eval_guard_undefined (env : macros) (a b c : N) :
  env !! "LIBVIR_CHECK_VERSION" = None →
  eval_if env
    [TBang; TIdent "LIBVIR_CHECK_VERSION"; TLParen;
     TNum a; TComma; TNum b; TComma; TNum c; TRParen]
  = Err EBadCondition
  ∧ parse_unary
      (zero_ident <$> [TBang; TIdent "LIBVIR_CHECK_VERSION"; TLParen;
                       TNum a; TComma; TNum b; TComma; TNum c; TRParen])
    = Some (1, [TLParen; TNum a; TComma; TNum b; TComma; TNum c; TRParen]).
Proof.
  intros H. unfold eval_if. cbn [expand]. rewrite H.
  split; reflexivity.
Qed.

Lemma pp_header_undefined inc (env : macros) (st : pp_state) :
  env !! "LIBVIR_CHECK_VERSION" = None →
  pp_lines inc env file_name [] header st = Err EBadCondition.
Proof.
  intros H. unfold header, source.
  cbn [fmap list_fmap snd pp_lines forallb id andb].
  rewrite (proj1 (eval_guard_undefined env 2 0 0 H)). reflexivity.
Qed.

Lemma fs_lookup : fs !! file_name = Some header.
Proof. apply lookup_singleton_eq. Qed.

Lemma fs_wrapped_lookup :
  fs_wrapped !! file_name = Some header
  ∧ fs_wrapped !! wrapper_name = Some [DInclude file_name].
Proof.
  unfold fs_wrapped. split.
  - rewrite lookup_insert_ne by discriminate. apply fs_lookup.
  - apply lookup_insert_eq.
Qed.

Lemma pp_include_header_undefined (d : nat) (env : macros) (st : pp_state) :
  env !! "LIBVIR_CHECK_VERSION" = None →
  file_name ∉ once st →
  pp_include (S d) fs env file_name st = Err EBadCondition.
Proof.
  intros H Hn. cbn [pp_include]. rewrite decide_False by exact Hn.
  rewrite fs_lookup. cbn [of_option mbind result_bind].
  apply pp_header_undefined, H.
Qed.

(** Including a file that is marked does nothing, in any file system and
    environment. *)
Lemma pp_include_seen (d : nat) (fs' : files) (env : macros)
    (file : string) (st : pp_state) :
  file ∈ once st → pp_include (S d) fs' env file st = Ok st.
Proof.
  intros H. cbn [pp_include]. rewrite decide_True by exact H. reflexivity.
Qed.

(** Including the wrapper is including the header: the wrapper is never
    marked, it has no [#pragma once] of its own. *)
Lemma pp_include_wrapper (d : nat) (env : macros) (st : pp_state) :
  wrapper_name ∉ once st →
  pp_include (S (S d)) fs_wrapped env wrapper_name st
  = pp_include (S d) fs_wrapped env file_name st.
Proof.
  intros H.
  change (pp_include (S (S d)) fs_wrapped env wrapper_name st)
    with (if decide (wrapper_name ∈ once st) then Ok st
          else ls ← of_option EMissingFile (fs_wrapped !! wrapper_name);
               pp_lines (pp_include (S d) fs_wrapped env) env wrapper_name [] ls st).
  rewrite decide_False by exact H.
  rewrite (proj2 fs_wrapped_lookup).
  cbn [of_option mbind result_bind pp_lines forallb].
  destruct (pp_include (S d) fs_wrapped env file_name st); reflexivity.
Qed.

Lemma pp_lines_repeat_seen inc (env : macros) (main : string)
    (st : pp_state) (n : nat) :
  inc file_name st = Ok st →
  pp_lines inc env main [] (repeat (DInclude file_name) n) st = Ok st.
Proof.
  intros H. induction n as [| n IH]; [reflexivity |].
  cbn [repeat pp_lines forallb]. rewrite H. exact IH.
Qed.

Lemma declare_text_lines : declare_all [] (text_lines header) = Ok all_six.
Proof. vm_compute. reflexivity. Qed.

End Preprocessing.

(** ** The header under a version predicate *)

Section Predicate.

(** Any three-argument predicate the build environment may define. *)
Variable chk : N -> N -> N -> bool.

Lemma eval_guard_predicate (a b c : N) :
  eval_if (predicate_env chk)
    [TBang; TIdent "LIBVIR_CHECK_VERSION"; TLParen;
     TNum a; TComma; TNum b; TComma; TNum c; TRParen]
  = Ok (negb (chk a b c)).
Proof.
  unfold eval_if, predicate_env. cbn [expand].
  rewrite lookup_singleton_eq. cbn.
  destruct (chk a b c); reflexivity.
Qed.

(** The lines of the header, from any state and whatever [#include] does. *)
Lemma pp_header inc (st : pp_state) :
  pp_lines inc (predicate_env chk) file_name [] header st
  = Ok (PPState ({[ file_name ]} ∪ once st)
                (out st ++ if chk 2 0 0 then [] else text_lines header)).
Proof.
  unfold header, source.
  cbn [fmap list_fmap snd pp_lines forallb id andb].
  rewrite !eval_guard_predicate.
  destruct (chk 2 0 0);
    cbn [negb mbind result_bind pp_lines forallb id andb].
  - unfold mark_once. rewrite app_nil_r. reflexivity.
  - rewrite !expand_no_call by compute_done.
    unfold emit, mark_once, text_lines.
    cbn [of_option mbind result_bind once out omap list_omap].
    rewrite <- !app_assoc. reflexivity.
Qed.

(** The first inclusion of the header marks it and emits its lines. *)
Lemma pp_include_header (d : nat) (fs' : files) (st : pp_state) :
  fs' !! file_name = Some header →
  file_name ∉ once st →
  pp_include (S d) fs' (predicate_env chk) file_name st
  = Ok (PPState ({[ file_name ]} ∪ once st)
                (out st ++ if chk 2 0 0 then [] else text_lines header)).
Proof.
  intros Hf H. cbn [pp_include]. rewrite decide_False by exact H.
  rewrite Hf. cbn [of_option mbind result_bind].
  apply pp_header.
Qed.

Lemma pp_include_first (d : nat) (fs' : files) :
  fs' !! file_name = Some header →
  pp_include (S d) fs' (predicate_env chk) file_name (PPState ∅ [])
  = Ok (included chk).
Proof.
  intros H. rewrite pp_include_header; [reflexivity | exact H |].
  apply not_elem_of_empty.
Qed.

Lemma included_once :
  file_name ∈ once (included chk) ∧ wrapper_name ∉ once (included chk).
Proof.
  unfold included. cbn [once]. split.
  - apply elem_of_union_l, elem_of_singleton. reflexivity.
  - rewrite elem_of_union, elem_of_singleton.
    intros [H | H]; [discriminate H | exact (not_elem_of_empty _ H)].
Qed.

Lemma declare_included :
  declare_all [] (out (included chk)) = Ok (if chk 2 0 0 then [] else all_six).
Proof.
  unfold included. cbn [out app].
  destruct (chk 2 0 0); [reflexivity | apply declare_text_lines].
Qed.

(** The header yields all six declarations or none, as [chk 2 0 0]
    decides. *)
Lemma shim_in_predicate :
  shim_in (predicate_env chk) = Ok (if chk 2 0 0 then [] else all_six).
Proof.
  unfold shim_in, translate, preprocess, unit_once, include_depth.
  cbn [pp_lines forallb].
  rewrite pp_include_first by apply fs_lookup.
  cbn [mbind result_bind]. apply declare_included.
Qed.

(** Including the header any number of times is including it once. *)
Lemma translate_repeat (n : nat) :
  translate fs (predicate_env chk) (repeat (DInclude file_name) (S n))
  = shim_in (predicate_env chk).
Proof.
  rewrite shim_in_predicate.
  unfold translate, preprocess, include_depth.
  cbn [repeat pp_lines forallb].
  rewrite pp_include_first by apply fs_lookup.
  cbn [mbind result_bind].
  rewrite pp_lines_repeat_seen by apply pp_include_seen, included_once.
  cbn [mbind result_bind]. apply declare_included.
Qed.

(** Through the wrapper, before or after a direct inclusion, or twice
    through the wrapper. *)
Lemma translate_wrapped :
  translate fs_wrapped (predicate_env chk)
    [DInclude wrapper_name; DInclude file_name]
  = shim_in (predicate_env chk)
  ∧ translate fs_wrapped (predicate_env chk)
      [DInclude file_name; DInclude wrapper_name]
    = shim_in (predicate_env chk)
  ∧ translate fs_wrapped (predicate_env chk)
      [DInclude wrapper_name; DInclude wrapper_name]
    = shim_in (predicate_env chk).
Proof.
  rewrite shim_in_predicate.
  unfold translate, preprocess, include_depth.
  cbn [pp_lines forallb].
  rewrite !pp_include_wrapper by (cbn [once]; apply not_elem_of_empty).
  rewrite !pp_include_first by apply fs_wrapped_lookup.
  cbn [mbind result_bind].
  rewrite !pp_include_wrapper by apply included_once.
  rewrite !pp_include_seen by apply included_once.
  cbn [mbind result_bind].
  repeat split; apply declare_included.
Qed.

End Predicate.

(** ** What the header emits for a target version *)

Section Emission.

Lemma shim_spec (v : version) :
  shim v = Ok (if version_lt v (Version 2 0 0) then all_six else []).
Proof.
  unfold shim, libvirt_headers. rewrite shim_in_predicate.
  unfold version_lt, LIBVIR_CHECK_VERSION.
  now destruct (version_le (Version 2 0 0) v).
Qed.

(** Below 2.0.0 is below major version 2. *)
Lemma below_2_0_0 (v : version) :
  version_lt v (Version 2 0 0) = true ↔ major v < 2.
Proof. rewrite version_lt_lex. simpl. lia. Qed.

Lemma introduced_2_0_0 (k : handle) :
  introduced_version k = Some (Version 2 0 0).
Proof. destruct k; vm_compute; reflexivity. Qed.

Lemma opaque_in_all_six (k : handle) : opaque_decl k ∈ all_six.
Proof. destruct k; unfold all_six; simpl; set_solver. Qed.

Lemma alias_in_all_six (k : handle) : alias_decl k ∈ all_six.
Proof. destruct k; unfold all_six; simpl; set_solver. Qed.

End Emission.

(** ** The version gate *)

Section Gate.

(** C1. For every handle kind, whose guard tests version 2.0.0, the opaque
    type and the pointer alias are emitted exactly when the target library
    version is strictly below 2.0.0, that is below major version 2; at or
    above 2.0.0 the header declares neither name. *)
Theorem version_gate (v : version) (k : handle) :
  introduced_version k = Some (Version 2 0 0)
  ∧ (version_lt v (Version 2 0 0) = true ↔ major v < 2)
  ∧ ∃ syms, shim v = Ok syms
      ∧ (opaque_decl k ∈ syms ↔ version_lt v (Version 2 0 0) = true)
      ∧ (alias_decl k ∈ syms ↔ version_lt v (Version 2 0 0) = true)
      ∧ (version_le (Version 2 0 0) v = true →
         (handle_name k ∉ names syms) ∧ (alias_name k ∉ names syms)).
Proof.
  split; [apply introduced_2_0_0 |].
  split; [apply below_2_0_0 |].
  rewrite shim_spec. unfold version_lt.
  destruct (version_le (Version 2 0 0) v); simpl; eexists; (split; [reflexivity |]).
  - repeat split; try discriminate; try (intros H; inversion H); apply not_elem_of_nil.
  - repeat split; auto using opaque_in_all_six, alias_in_all_six; discriminate.
Qed.

(** C3. Against version 1.9.0 the header yields exactly six symbols, three
    opaque types and three pointer aliases, each declared once; against
    version 2.0.0 it yields none. *)
Theorem end_to_end :
  (∃ syms, shim (Version 1 9 0) = Ok syms
     ∧ names syms = ["virAdmClient"; "virAdmConnect"; "virAdmServer";
                     "virAdmClientPtr"; "virAdmConnectPtr"; "virAdmServerPtr"]
     ∧ NoDup (names syms)
     ∧ length syms = 6%nat
     ∧ filter is_opaque syms = opaque_decl <$> handles
     ∧ filter is_alias syms = alias_decl <$> handles)
  ∧ shim (Version 2 0 0) = Ok [].
Proof.
  split; [| rewrite shim_spec; reflexivity].
  exists all_six. split; [rewrite shim_spec; reflexivity |].
  repeat split; try reflexivity.
  compute_done.
Qed.

(** C7. When the target library version equals the threshold tested around
    a handle kind, the header emits nothing: the threshold itself is on the
    native side. *)
Theorem threshold_is_native (k : handle) (V : version) :
  introduced_version k = Some V → shim V = Ok [].
Proof.
  rewrite introduced_2_0_0. intros [= <-]. rewrite shim_spec. reflexivity.
Qed.

(** At the threshold of Client. *)
Lemma threshold_is_native_witness :
  introduced_version Client = Some (Version 2 0 0) ∧ shim (Version 2 0 0) = Ok [].
Proof.
  split; [reflexivity |].
  apply (threshold_is_native Client). reflexivity.
Defined.

(** C8. When the target library version is one patch level below the
    threshold tested around a handle kind, the header emits the six
    declarations, those of every handle kind. *)
Theorem patch_below_emits (k : handle) (V t : version) :
  introduced_version k = Some V →
  patch_below t V = true →
  shim t = Ok all_six
  ∧ ∀ k', opaque_decl k' ∈ all_six ∧ alias_decl k' ∈ all_six.
Proof.
  rewrite introduced_2_0_0. intros [= <-] H%patch_below_lt.
  rewrite shim_spec, H.
  split; [reflexivity |]. intros k'.
  split; [apply opaque_in_all_six | apply alias_in_all_six].
Qed.

(** Version 1.9.9 before the threshold of Server. *)
Lemma patch_below_emits_witness :
  introduced_version Server = Some (Version 2 0 0)
  ∧ patch_below (Version 1 9 9) (Version 2 0 0) = true
  ∧ shim (Version 1 9 9) = Ok all_six.
Proof.
  split; [reflexivity |]. split; [reflexivity |].
  apply (patch_below_emits Server (Version 2 0 0) (Version 1 9 9)); reflexivity.
Defined.

(** C10. Every guard of the header tests the triple (2, 0, 0) and every
    declaration stands under exactly one guard, so for every version
    predicate, and so for every target library version, the header emits
    its six declarations or none of them. *)
Theorem all_or_nothing :
  Forall (fun g => g.2 = [TBang; TIdent "LIBVIR_CHECK_VERSION"; TLParen;
                          TNum 2; TComma; TNum 0; TComma; TNum 0; TRParen])
         (guards source)
  ∧ length (guards source) = 6%nat
  ∧ Forall (fun s => length (s_scope s) = 1%nat) (sites [] source)
  ∧ length all_six = 6%nat
  ∧ (∀ chk, shim_in (predicate_env chk) = Ok all_six
            ∨ shim_in (predicate_env chk) = Ok [])
  ∧ (∀ v, shim v = Ok all_six ∨ shim v = Ok []).
Proof.
  split; [compute_done |].
  split; [reflexivity |].
  split; [compute_done |].
  split; [reflexivity |].
  split.
  - intros chk. rewrite shim_in_predicate. destruct (chk 2 0 0); auto.
  - intros v. rewrite shim_spec. destruct (version_lt v (Version 2 0 0)); auto.
Qed.

End Gate.

(** ** Handles and their pointer aliases *)

Section Aliases.

Lemma names_all_six :
  names all_six = ["virAdmClient"; "virAdmConnect"; "virAdmServer";
                   "virAdmClientPtr"; "virAdmConnectPtr"; "virAdmServerPtr"].
Proof. reflexivity. Qed.

(** In the emitted table an alias comes three places after its handle. *)
Lemma alias_index (k : handle) (i : nat) :
  names all_six !! i = Some (alias_name k) →
  (3 <= i)%nat ∧ names all_six !! (i - 3)%nat = Some (handle_name k).
Proof.
  rewrite names_all_six.
  destruct k;
    do 6 (destruct i as [| i];
          [solve [discriminate | intros _; split; [lia | reflexivity]] |]);
    discriminate.
Qed.

(** What the claim C2 says of Client fails on the header: the alias
    [virAdmClientPtr] stands in the group opened at line 43, the handle
    [virAdmClient] in the group opened at line 31. *)
Lemma alias_scope_counterexample :
  s_scope <$> decl_site source "virAdmClient" = Some [31%nat]
  ∧ s_scope <$> decl_site source "virAdmClientPtr" = Some [43%nat]
  ∧ same_scope_after source (handle_name Client) (alias_name Client) = false.
Proof. repeat split. Qed.

(** C2, amended. For every handle kind the pointer alias is declared in a
    conditional group of its own, which comes after the group holding the
    handle and is controlled by the same expression; whatever the target
    library version, the alias is then never declared unless the handle
    was declared before it. *)
Theorem alias_after_handle (v : version) (k : handle) :
  same_guard_after source (handle_name k) (alias_name k) = true
  ∧ ∃ syms, shim v = Ok syms
      ∧ ∀ i, names syms !! i = Some (alias_name k) →
             ∃ j, (j < i)%nat ∧ names syms !! j = Some (handle_name k).
Proof.
  split; [destruct k; vm_compute; reflexivity |].
  rewrite shim_spec.
  destruct (version_lt v (Version 2 0 0)); eexists; (split; [reflexivity |]).
  - intros i [Hi Hj]%alias_index. exists (i - 3)%nat. split; [lia | exact Hj].
  - intros i Hi. destruct i; discriminate Hi.
Qed.

(** C4. The alias the header emits for a handle kind is a pointer to that
    handle, in the header and in every table it yields, and it is emitted
    only when the handle is: where the handle is absent, so is the alias. *)
Theorem alias_points_to_handle (v : version) (k : handle) :
  s_decl <$> decl_site source (alias_name k) = Some (alias_decl k)
  ∧ td_type (alias_decl k) = TPtr (TNamed (handle_name k))
  ∧ ∃ syms, shim v = Ok syms
      ∧ (∀ d, d ∈ syms → td_name d = alias_name k →
              td_type d = TPtr (TNamed (handle_name k)))
      ∧ (alias_name k ∈ names syms → opaque_decl k ∈ syms)
      ∧ (handle_name k ∉ names syms → alias_name k ∉ names syms).
Proof.
  split; [destruct k; vm_compute; reflexivity |].
  split; [reflexivity |].
  rewrite shim_spec.
  destruct (version_lt v (Version 2 0 0)); eexists; (split; [reflexivity |]).
  - split; [| split].
    + intros d Hd Hn. unfold all_six in Hd. simpl in Hd.
      repeat (apply elem_of_cons in Hd as [-> | Hd]);
        [.. | apply elem_of_nil in Hd; contradiction];
        destruct k; solve [reflexivity | discriminate Hn].
    + intros _. apply opaque_in_all_six.
    + intros H. exfalso. apply H.
      apply list_elem_of_fmap. exists (opaque_decl k).
      split; [reflexivity | apply opaque_in_all_six].
  - split; [| split].
    + intros d Hd. apply elem_of_nil in Hd. contradiction.
    + intros H. apply elem_of_nil in H. contradiction.
    + intros _. apply not_elem_of_nil.
Qed.

(** C5. Every pointer alias of the header is named by its base type name
    followed by [Ptr]: virAdmClientPtr, virAdmConnectPtr, virAdmServerPtr;
    the same holds of every alias the header emits. *)
Theorem alias_naming (v : version) :
  pointer_aliases (s_decl <$> sites [] source)
    = [("virAdmClient", "virAdmClientPtr");
       ("virAdmConnect", "virAdmConnectPtr");
       ("virAdmServer", "virAdmServerPtr")]
  ∧ Forall (fun p => p.2 = p.1 +:+ "Ptr")
           (pointer_aliases (s_decl <$> sites [] source))
  ∧ ∃ syms, shim v = Ok syms
      ∧ (∀ d b, d ∈ syms → td_type d = TPtr (TNamed b) →
                td_name d = b +:+ "Ptr")
      ∧ (∀ k, opaque_decl k ∈ syms →
              (handle_name k, handle_name k +:+ "Ptr") ∈ pointer_aliases syms).
Proof.
  split; [reflexivity |].
  split; [repeat constructor |].
  rewrite shim_spec.
  destruct (version_lt v (Version 2 0 0)); eexists; (split; [reflexivity |]).
  - split.
    + intros d b Hd Ht. unfold all_six in Hd. simpl in Hd.
      repeat (apply elem_of_cons in Hd as [-> | Hd]);
        [.. | apply elem_of_nil in Hd; contradiction];
        simpl in Ht; try discriminate Ht; injection Ht as <-; reflexivity.
    + intros k _. destruct k; vm_compute; set_solver.
  - split.
    + intros d b Hd. apply elem_of_nil in Hd. contradiction.
    + intros k Hk. apply elem_of_nil in Hk. contradiction.
Qed.

End Aliases.

(** ** Repeated inclusion and missing predicate *)

Section Inclusion.

(** Without its [#pragma once] the header could not be included twice
    below version 2.0.0. *)
Lemma no_pragma_once_redefines :
  translate {[ file_name := tail header ]} (libvirt_headers (Version 1 9 0))
    [DInclude file_name; DInclude file_name]
  = Err (ERedefinition "virAdmClient").
Proof. vm_compute. reflexivity. Qed.

(** C6. Including the header twice or more in one translation unit,
    directly or through another header, yields the same declarations as
    including it once, and these carry no name twice, whatever the target
    library version: no redefinition arises. *)
Theorem include_idempotent (v : version) (n : nat) :
  translate fs (libvirt_headers v) (repeat (DInclude file_name) (2 + n)) = shim v
  ∧ translate fs_wrapped (libvirt_headers v)
      [DInclude wrapper_name; DInclude file_name] = shim v
  ∧ translate fs_wrapped (libvirt_headers v)
      [DInclude file_name; DInclude wrapper_name] = shim v
  ∧ translate fs_wrapped (libvirt_headers v)
      [DInclude wrapper_name; DInclude wrapper_name] = shim v
  ∧ ∃ syms, shim v = Ok syms ∧ NoDup (names syms).
Proof.
  unfold shim, libvirt_headers.
  split; [apply translate_repeat |].
  destruct (translate_wrapped (LIBVIR_CHECK_VERSION v)) as (H1 & H2 & H3).
  do 3 (split; [assumption |]).
  rewrite shim_in_predicate.
  destruct (LIBVIR_CHECK_VERSION v 2 0 0); eexists; (split; [reflexivity |]).
  - constructor.
  - compute_done.
Qed.

(** C9. In a build environment that does not define
    [LIBVIR_CHECK_VERSION], translating a unit that includes the header
    fails, at the first [#if]: neither branch is taken. *)
Theorem undefined_predicate_fails (env : macros) :
  env !! "LIBVIR_CHECK_VERSION" = None →
  shim_in env = Err EBadCondition.
Proof.
  intros H.
  unfold shim_in, translate, preprocess, unit_once, include_depth.
  cbn [pp_lines forallb].
  rewrite pp_include_header_undefined;
    [reflexivity | exact H | apply not_elem_of_empty].
Qed.

(** The environment with no macro at all. *)
Lemma undefined_predicate_fails_witness :
  (∅ : macros) !! "LIBVIR_CHECK_VERSION" = None
  ∧ shim_in ∅ = Err EBadCondition.
Proof.
  split; [reflexivity |].
  apply (undefined_predicate_fails ∅). reflexivity.
Defined.

End Inclusion.

(** ** The header in any build environment *)

Section AnyEnvironment.

(** The guard where [LIBVIR_CHECK_VERSION] is some function-like macro:
    three arguments are required, and any value but 0 counts as true. *)
Lemma eval_guard_macro (env : macros) (n : nat) (f : list N -> N) (a b c : N) :
  env !! "LIBVIR_CHECK_VERSION" = Some (FunMacro n f) →
  eval_if env
    [TBang; TIdent "LIBVIR_CHECK_VERSION"; TLParen;
     TNum a; TComma; TNum b; TComma; TNum c; TRParen]
  = if decide (n = 3%nat) then Ok (f [a; b; c] =? 0) else Err EBadMacroCall.
Proof.
  intros H. unfold eval_if. cbn [expand]. rewrite H.
  cbn [call_args app length].
  destruct (decide (3%nat = n)) as [<- | Hn].
  - cbn. destruct (f [a; b; c]); reflexivity.
  - rewrite decide_False by congruence. reflexivity.
Qed.

Lemma pp_header_macro inc (env : macros) (n : nat) (f : list N -> N)
    (st : pp_state) :
  env !! "LIBVIR_CHECK_VERSION" = Some (FunMacro n f) →
  pp_lines inc env file_name [] header st
  = if decide (n = 3%nat)
    then Ok (PPState ({[ file_name ]} ∪ once st)
                     (out st ++ if f [2; 0; 0] =? 0 then text_lines header else []))
    else Err EBadMacroCall.
Proof.
  intros H. unfold header, source.
  cbn [fmap list_fmap snd pp_lines forallb id andb].
  rewrite !(eval_guard_macro env n f 2 0 0 H).
  destruct (decide (n = 3%nat)) as [-> | Hn]; [| reflexivity].
  destruct (f [2; 0; 0] =? 0);
    cbn [mbind result_bind pp_lines forallb id andb].
  - rewrite !expand_no_call by compute_done.
    unfold emit, mark_once, text_lines.
    cbn [of_option mbind result_bind once out omap list_omap].
    rewrite <- !app_assoc. reflexivity.
  - unfold mark_once. rewrite app_nil_r. reflexivity.
Qed.

(** Inclusion of the header where the predicate is a macro of three
    arguments. *)
Lemma pp_include_header_macro (d : nat) (fs' : files) (env : macros)
    (f : list N -> N) (st : pp_state) :
  fs' !! file_name = Some header →
  env !! "LIBVIR_CHECK_VERSION" = Some (FunMacro 3 f) →
  file_name ∉ once st →
  pp_include (S d) fs' env file_name st
  = Ok (PPState ({[ file_name ]} ∪ once st)
                (out st ++ if f [2; 0; 0] =? 0 then text_lines header else [])).
Proof.
  intros Hf H Hn. cbn [pp_include]. rewrite decide_False by exact Hn.
  rewrite Hf. cbn [of_option mbind result_bind].
  rewrite (pp_header_macro _ env 3 f st H). reflexivity.
Qed.




End AnyEnvironment.

(** ** The gate along the version order *)

Section AlongVersions.

(** X3. The gate is monotone: once a version of the target library makes
    the header silent, every later version does too; where a version makes
    it emit its declarations, every earlier version does. *)
Theorem suppressed_from_then_on (v w : version) :
  version_le v w = true →
  (shim v = Ok [] → shim w = Ok [])
  ∧ (shim w = Ok all_six → shim v = Ok all_six).
Proof.
  intros Hvw. rewrite !shim_spec. unfold version_lt.
  destruct (version_le (Version 2 0 0) v) eqn:Hv.
  - rewrite (version_le_trans _ _ _ Hv Hvw). simpl.
    split; [reflexivity | discriminate].
  - simpl. split; [discriminate | reflexivity].
Qed.

(** From 2.0.0 to 9.4.0, and from 1.3.0 back to 1.2.17. *)
Lemma suppressed_from_then_on_witness :
  (version_le (Version 2 0 0) (Version 9 4 0) = true
   ∧ shim (Version 2 0 0) = Ok [] ∧ shim (Version 9 4 0) = Ok [])
  ∧ (version_le (Version 1 2 17) (Version 1 3 0) = true
     ∧ shim (Version 1 3 0) = Ok all_six ∧ shim (Version 1 2 17) = Ok all_six).
Proof.
  split.
  - split; [reflexivity |].
    assert (H : shim (Version 2 0 0) = Ok []) by (rewrite shim_spec; reflexivity).
    split; [exact H |].
    exact (proj1 (suppressed_from_then_on (Version 2 0 0) (Version 9 4 0) eq_refl) H).
  - split; [reflexivity |].
    assert (H : shim (Version 1 3 0) = Ok all_six) by (rewrite shim_spec; reflexivity).
    split; [exact H |].
    exact (proj2 (suppressed_from_then_on (Version 1 2 17) (Version 1 3 0) eq_refl) H).
Defined.

(** X4. Only the major component of the target version matters: two
    versions with the same major get the same declarations from the
    header, whatever their minor and micro components. *)
Theorem only_major_matters (v w : version) :
  major v = major w → shim v = shim w.
Proof.
  intros H. rewrite !shim_spec.
  destruct (version_lt v (Version 2 0 0)) eqn:Hv;
    destruct (version_lt w (Version 2 0 0)) eqn:Hw; try reflexivity; exfalso.
  - apply below_2_0_0 in Hv. apply not_true_iff_false in Hw.
    apply Hw, below_2_0_0. lia.
  - apply below_2_0_0 in Hw. apply not_true_iff_false in Hv.
    apply Hv, below_2_0_0. lia.
Qed.

(** Versions 1.2.17 and 1.999.999. *)
Lemma only_major_matters_witness :
  major (Version 1 2 17) = major (Version 1 999 999)
  ∧ shim (Version 1 2 17) = shim (Version 1 999 999).
Proof.
  split; [reflexivity |].
  apply (only_major_matters (Version 1 2 17) (Version 1 999 999)). reflexivity.
Defined.

(** X5. Every opaque type of the header is an incomplete struct whose tag
    is the name of the type after an underscore, in the header and in
    every table it yields, so no tag is also the name of a type. *)
Theorem struct_tag_naming (v : version) :
  struct_tags (s_decl <$> sites [] source)
    = [("_virAdmClient", "virAdmClient");
       ("_virAdmConnect", "virAdmConnect");
       ("_virAdmServer", "virAdmServer")]
  ∧ ∃ syms, shim v = Ok syms
      ∧ (∀ d tag, d ∈ syms → td_type d = TStruct tag →
                  tag = "_" +:+ td_name d)
      ∧ (∀ p, p ∈ struct_tags syms → p.1 ∉ names syms).
Proof.
  split; [reflexivity |].
  rewrite shim_spec.
  destruct (version_lt v (Version 2 0 0)); eexists; (split; [reflexivity |]).
  - split.
    + intros d tag Hd Ht. unfold all_six in Hd. simpl in Hd.
      repeat (apply elem_of_cons in Hd as [-> | Hd]);
        [.. | apply elem_of_nil in Hd; contradiction];
        simpl in Ht; try discriminate Ht; injection Ht as <-; reflexivity.
    + intros p Hp. change (struct_tags all_six)
        with [("_virAdmClient", "virAdmClient");
              ("_virAdmConnect", "virAdmConnect");
              ("_virAdmServer", "virAdmServer")] in Hp.
      repeat (apply elem_of_cons in Hp as [-> | Hp]);
        [.. | apply elem_of_nil in Hp; contradiction]; compute_done.
  - split.
    + intros d tag Hd. apply elem_of_nil in Hd. contradiction.
    + intros p Hp. apply elem_of_nil in Hp. contradiction.
Qed.

End AlongVersions.

(** ** The header in arbitrary translation units *)

Section Agreement.

Lemma agree_refl (st : pp_state) : agree st st.
Proof. split; [reflexivity | intros; reflexivity]. Qed.

Lemma agree_sym (s1 s2 : pp_state) : agree s1 s2 → agree s2 s1.
Proof. intros [Ho Hm]. split; [symmetry; exact Ho |]. intros g Hg. symmetry. auto. Qed.

Lemma agree_trans (s1 s2 s3 : pp_state) :
  agree s1 s2 → agree s2 s3 → agree s1 s3.
Proof.
  intros [Ho Hm] [Ho' Hm']. split; [congruence |].
  intros g Hg. rewrite (Hm g Hg). auto.
Qed.

Lemma agree_mark (file : string) (s1 s2 : pp_state) :
  agree s1 s2 → agree (mark_once file s1) (mark_once file s2).
Proof.
  intros [Ho Hm]. split; [exact Ho |]. intros g Hg.
  unfold mark_once. cbn [once]. rewrite !elem_of_union, (Hm g Hg). reflexivity.
Qed.

Lemma agree_emit (ts : list token) (s1 s2 : pp_state) :
  agree s1 s2 → agree (emit ts s1) (emit ts s2).
Proof.
  intros [Ho Hm]. split; [| exact Hm].
  unfold emit. cbn [out]. rewrite Ho. reflexivity.
Qed.

(** Marking the header and emitting nothing stays in agreement. *)
Lemma agree_silent (st : pp_state) :
  agree (PPState ({[ file_name ]} ∪ once st) (out st ++ [])) st.
Proof.
  split; cbn [out once]; [apply app_nil_r |].
  intros g Hg. rewrite elem_of_union, elem_of_singleton. tauto.
Qed.

Lemma agree_res_refl (r : result pp_state) : agree_res r r.
Proof. destruct r; [apply agree_refl | reflexivity]. Qed.

(** The lines of a file keep agreement when inclusion does. *)
Lemma pp_lines_agree inc (env : macros) (file : string) (ls : list line) :
  (∀ g t1 t2, agree t1 t2 → agree_res (inc g t1) (inc g t2)) →
  ∀ stack s1 s2, agree s1 s2 →
    agree_res (pp_lines inc env file stack ls s1)
              (pp_lines inc env file stack ls s2).
Proof.
  intros Hinc. induction ls as [| l ls IH]; intros stack s1 s2 Ha;
    cbn [pp_lines].
  - destruct stack; [exact Ha | reflexivity].
  - destruct l as [| c | | g | ts].
    + apply IH. destruct (forallb id stack); [apply agree_mark |]; exact Ha.
    + destruct (forallb id stack); [| apply IH, Ha].
      destruct (eval_if env c); cbn [mbind result_bind];
        [apply IH, Ha | reflexivity].
    + destruct stack; [reflexivity | apply IH, Ha].
    + destruct (forallb id stack); [| apply IH, Ha].
      specialize (Hinc g s1 s2 Ha).
      destruct (inc g s1), (inc g s2); cbn [agree_res] in Hinc;
        cbn [mbind result_bind]; try contradiction;
        [apply IH, Hinc | exact Hinc].
    + destruct (forallb id stack); [| apply IH, Ha].
      destruct (expand env ts); cbn [of_option mbind result_bind];
        [apply IH, agree_emit, Ha | reflexivity].
Qed.

(** The same, with the direct inclusions of the header removed on one
    side, where including the header keeps agreement with not doing so. *)
Lemma pp_lines_strip inc (env : macros) (file : string) (ls : list line) :
  (∀ g t1 t2, agree t1 t2 → agree_res (inc g t1) (inc g t2)) →
  (∀ t1 t2, agree t1 t2 → agree_res (inc file_name t1) (Ok t2)) →
  ∀ stack s1 s2, agree s1 s2 →
    agree_res (pp_lines inc env file stack ls s1)
              (pp_lines inc env file stack (strip ls) s2).
Proof.
  intros Hinc Hf. unfold strip.
  induction ls as [| l ls IH]; intros stack s1 s2 Ha.
  - cbn [pp_lines]. destruct stack; [exact Ha | reflexivity].
  - destruct (decide (l = DInclude file_name)) as [-> | Hl].
    + rewrite filter_cons_False by (intros H; apply H; reflexivity).
      cbn [pp_lines].
      destruct (forallb id stack); [| apply IH, Ha].
      specialize (Hf s1 s2 Ha).
      destruct (inc file_name s1); cbn [agree_res] in Hf;
        cbn [mbind result_bind]; [apply IH, Hf | contradiction].
    + rewrite filter_cons_True by exact Hl.
      cbn [pp_lines].
      destruct l as [| c | | g | ts].
      * apply IH. destruct (forallb id stack); [apply agree_mark |]; exact Ha.
      * destruct (forallb id stack); [| apply IH, Ha].
        destruct (eval_if env c); cbn [mbind result_bind];
          [apply IH, Ha | reflexivity].
      * destruct stack; [reflexivity | apply IH, Ha].
      * destruct (forallb id stack); [| apply IH, Ha].
        specialize (Hinc g s1 s2 Ha).
        destruct (inc g s1), (inc g s2); cbn [agree_res] in Hinc;
          cbn [mbind result_bind]; try contradiction;
          [apply IH, Hinc | exact Hinc].
      * destruct (forallb id stack); [| apply IH, Ha].
        destruct (expand env ts); cbn [of_option mbind result_bind];
          [apply IH, agree_emit, Ha | reflexivity].
Qed.

End Agreement.

Section Inert.

(** A file system that holds the header, and a predicate true at
    (2, 0, 0). *)
Variable fs' : files.
Variable chk : N -> N -> N -> bool.
Hypothesis fs_header : fs' !! file_name = Some header.
Hypothesis chk_true : chk 2 0 0 = true.

Lemma pp_include_inert (d : nat) (s1 s2 : pp_state) :
  agree s1 s2 →
  agree_res (pp_include (S d) fs' (predicate_env chk) file_name s1) (Ok s2).
Proof.
  intros Ha. cbn [pp_include].
  destruct (decide (file_name ∈ once s1)); [exact Ha |].
  rewrite fs_header. cbn [of_option mbind result_bind].
  rewrite pp_header, chk_true.
  exact (agree_trans _ _ _ (agree_silent s1) Ha).
Qed.

Lemma pp_include_agree (d : nat) (g : string) (s1 s2 : pp_state) :
  agree s1 s2 →
  agree_res (pp_include d fs' (predicate_env chk) g s1)
            (pp_include d fs' (predicate_env chk) g s2).
Proof.
  revert g s1 s2. induction d as [| d IH]; intros g s1 s2 Ha;
    [reflexivity |].
  destruct (decide (g = file_name)) as [-> | Hg].
  - pose proof (pp_include_inert d s1 s2 Ha) as H1.
    pose proof (pp_include_inert d s2 s2 (agree_refl s2)) as H2.
    destruct (pp_include (S d) fs' (predicate_env chk) file_name s1) as [t1 |];
      [| contradiction].
    destruct (pp_include (S d) fs' (predicate_env chk) file_name s2) as [t2 |];
      [| contradiction].
    exact (agree_trans _ _ _ H1 (agree_sym _ _ H2)).
  - cbn [pp_include]. pose proof (proj2 Ha g Hg) as Hm.
    destruct (decide (g ∈ once s1)) as [H1 | H1];
      destruct (decide (g ∈ once s2)) as [H2 | H2];
      [exact Ha | tauto | tauto |].
    destruct (fs' !! g) as [ls |]; cbn [of_option mbind result_bind];
      [| reflexivity].
    apply pp_lines_agree; [apply IH | exact Ha].
Qed.

Lemma preprocess_strip (main : list line) :
  preprocess fs' (predicate_env chk) main
  = preprocess fs' (predicate_env chk) (strip main).
Proof.
  unfold preprocess.
  pose proof (pp_lines_strip (pp_include include_depth fs' (predicate_env chk))
                (predicate_env chk) "<main>" main
                (pp_include_agree include_depth)
                (pp_include_inert 199)
                [] _ _ (agree_refl (PPState ∅ []))) as H.
  destruct (pp_lines _ _ _ _ main _) as [t1 | e1];
    destruct (pp_lines _ _ _ _ (strip main) _) as [t2 | e2];
    cbn [agree_res] in H; try contradiction; cbn [mbind result_bind].
  - rewrite (proj1 H). reflexivity.
  - rewrite H. reflexivity.
Qed.

End Inert.

Section Removal.



Lemma pp_lines_mono inc (env : macros) (file : string) (ls : list line) :
  (∀ g s s', inc g s = Ok s' → once s ⊆ once s') →
  ∀ stack st st', pp_lines inc env file stack ls st = Ok st' →
    once st ⊆ once st'.
Proof.
  intros Hinc. induction ls as [| l ls IH]; intros stack st st';
    cbn [pp_lines].
  - destruct stack; [intros [= <-]; reflexivity | discriminate].
  - destruct l as [| c | | g | ts].
    + intros H%IH. etransitivity; [| exact H].
      destruct (forallb id stack); [| reflexivity].
      unfold mark_once. cbn [once]. apply union_subseteq_r.
    + destruct (forallb id stack); [| apply IH].
      destruct (eval_if env c); cbn [mbind result_bind];
        [apply IH | discriminate].
    + destruct stack; [discriminate | apply IH].
    + destruct (forallb id stack); [| apply IH].
      destruct (inc g st) as [st1 |] eqn:E; cbn [mbind result_bind];
        [| discriminate].
      intros H%IH. etransitivity; [exact (Hinc _ _ _ E) | exact H].
    + destruct (forallb id stack); [| apply IH].
      destruct (expand env ts); cbn [of_option mbind result_bind];
        [apply IH | discriminate].
Qed.

(** Marks are never removed. *)
Lemma pp_include_mono (d : nat) (fs' : files) (env : macros) :
  ∀ g st st', pp_include d fs' env g st = Ok st' → once st ⊆ once st'.
Proof.
  induction d as [| d IH]; intros g st st'; cbn [pp_include];
    [discriminate |].
  destruct (decide (g ∈ once st)); [intros [= <-]; reflexivity |].
  destruct (fs' !! g) as [ls |]; cbn [of_option mbind result_bind];
    [| discriminate].
  apply pp_lines_mono, IH.
Qed.

(** Once included, the header is marked, in any environment. *)
Lemma pp_include_header_marks (d : nat) (fs' : files) (env : macros)
    (st st' : pp_state) :
  fs' !! file_name = Some header →
  pp_include (S d) fs' env file_name st = Ok st' →
  file_name ∈ once st'.
Proof.
  intros Hf. cbn [pp_include].
  destruct (decide (file_name ∈ once st)) as [Hin | Hout];
    [intros [= <-]; exact Hin |].
  rewrite Hf. cbn [of_option mbind result_bind].
  change header with (DPragmaOnce :: tail header).
  cbn [pp_lines forallb]. intros H.
  apply pp_lines_mono in H; [| apply pp_include_mono].
  apply H. unfold mark_once. cbn [once].
  apply elem_of_union_l, elem_of_singleton. reflexivity.
Qed.

(** With the header marked, its direct inclusions can be removed. *)
Lemma pp_lines_strip_marked inc (env : macros) (file : string)
    (ls : list line) :
  (∀ g s s', inc g s = Ok s' → once s ⊆ once s') →
  (∀ s, file_name ∈ once s → inc file_name s = Ok s) →
  ∀ stack st, file_name ∈ once st →
    pp_lines inc env file stack ls st
    = pp_lines inc env file stack (strip ls) st.
Proof.
  intros Hmono Hseen. unfold strip.
  induction ls as [| l ls IH]; intros stack st Hin; [reflexivity |].
  destruct (decide (l = DInclude file_name)) as [-> | Hl].
  - rewrite filter_cons_False by (intros H; apply H; reflexivity).
    cbn [pp_lines].
    destruct (forallb id stack); [| apply IH, Hin].
    rewrite (Hseen st Hin). cbn [mbind result_bind]. apply IH, Hin.
  - rewrite filter_cons_True by exact Hl.
    cbn [pp_lines].
    destruct l as [| c | | g | ts].
    + apply IH. destruct (forallb id stack); [| exact Hin].
      unfold mark_once. cbn [once]. apply elem_of_union_r, Hin.
    + destruct (forallb id stack); [| apply IH, Hin].
      destruct (eval_if env c); cbn [mbind result_bind];
        [apply IH, Hin | reflexivity].
    + destruct stack; [reflexivity | apply IH, Hin].
    + destruct (forallb id stack); [| apply IH, Hin].
      destruct (inc g st) as [st1 |] eqn:E; cbn [mbind result_bind];
        [| reflexivity].
      apply IH. exact (Hmono _ _ _ E _ Hin).
    + destruct (forallb id stack); [| apply IH, Hin].
      destruct (expand env ts); cbn [of_option mbind result_bind];
        [apply IH, Hin | reflexivity].
Qed.

(** X7. In any build environment and over any file system that holds the
    header, a unit that starts by including the header translates the same
    with or without its further direct inclusions of the header, wherever
    they stand: under conditionals, between declarations, after other
    files that include it. *)
Theorem later_includes_removable (fs0 : files) (env : macros)
    (main : list line) :
  translate (<[ file_name := header ]> fs0) env (DInclude file_name :: main)
  = translate (<[ file_name := header ]> fs0) env
      (DInclude file_name :: strip main).
Proof.
  unfold translate, preprocess, include_depth.
  cbn [pp_lines forallb].
  destruct (pp_include 200 (<[ file_name := header ]> fs0) env file_name
              (PPState ∅ [])) as [st1 | e] eqn:E;
    cbn [mbind result_bind]; [| reflexivity].
  apply (pp_include_header_marks 199) in E; [| apply lookup_insert_eq].
  rewrite (pp_lines_strip_marked _ env "<main>" main
             (pp_include_mono 200 _ env)
             (fun s H => pp_include_seen 199 _ env file_name s H)
             [] st1 E).
  reflexivity.
Qed.

End Removal.

(** ** The header after declarations of the unit *)

Section Composition.

(** The declarations modelled hold no parenthesis, so no macro call. *)
Lemma parse_no_paren (ts : list token) (d : typedef) :
  parse_typedef ts = Some d → TLParen ∉ ts.
Proof.
  unfold parse_typedef. intros H.
  destruct ts as [| t1 [| t2 [| t3 [| t4 [| t5 [| t6 ts]]]]]]; try discriminate;
    destruct t1; try discriminate; destruct t2; try discriminate;
    destruct t3; try discriminate; destruct t4; try discriminate;
    destruct t5; try discriminate;
    intros Hin; repeat (apply elem_of_cons in Hin as [Hin | Hin]; [discriminate |]);
    apply elem_of_nil in Hin; exact Hin.
Qed.

Lemma declare_all_app (S : list typedef) (l1 l2 : list (list token)) :
  declare_all S (l1 ++ l2) = T ← declare_all S l1; declare_all T l2.
Proof.
  revert S. induction l1 as [| ts l1 IH]; intros S; [reflexivity |].
  cbn [app declare_all].
  destruct (parse_typedef ts) as [d |]; cbn [of_option mbind result_bind];
    [| reflexivity].
  destruct (declare S d) as [S1 |]; cbn [mbind result_bind];
    [apply IH | reflexivity].
Qed.

Lemma declare_all_no_paren (S T : list typedef) (l : list (list token)) :
  declare_all S l = Ok T → Forall (fun ts => TLParen ∉ ts) l.
Proof.
  revert S. induction l as [| ts l IH]; intros S; [constructor |].
  cbn [declare_all].
  destruct (parse_typedef ts) as [d |] eqn:Ep; cbn [of_option mbind result_bind];
    [| discriminate].
  destruct (declare S d) as [S1 |]; cbn [mbind result_bind]; [| discriminate].
  intros H. constructor; [exact (parse_no_paren _ _ Ep) | exact (IH _ H)].
Qed.

(** Lines without macro calls at the top of a file are emitted as they
    are. *)
Lemma pp_lines_text inc (env : macros) (file : string)
    (pre : list (list token)) (rest : list line) (st : pp_state) :
  Forall (fun ts => TLParen ∉ ts) pre →
  pp_lines inc env file [] ((Text <$> pre) ++ rest) st
  = pp_lines inc env file [] rest (PPState (once st) (out st ++ pre)).
Proof.
  intros H. revert st. induction H as [| ts pre Hts _ IH]; intros st.
  - cbn [fmap list_fmap app]. rewrite app_nil_r. destruct st; reflexivity.
  - cbn [fmap list_fmap app pp_lines forallb].
    rewrite (expand_no_call env ts Hts). cbn [of_option mbind result_bind].
    rewrite IH. unfold emit. cbn [once out].
    rewrite <- app_assoc. reflexivity.
Qed.

Lemma type_ok_mono (T S : list typedef) (t : ctype) :
  type_ok S t = Ok () → type_ok (T ++ S) t = Ok ().
Proof.
  induction t as [tag | n | t IH]; cbn [type_ok]; [reflexivity | | exact IH].
  destruct (decide (n ∈ names S)) as [Hin |]; [| discriminate].
  intros _. rewrite decide_True; [reflexivity |].
  unfold names. rewrite fmap_app. apply elem_of_app. right. exact Hin.
Qed.

Lemma declare_all_extends (l : list (list token)) :
  ∀ S S', declare_all S l = Ok S' → ∃ D, S' = S ++ D.
Proof.
  induction l as [| ts l IH]; intros S S'; cbn [declare_all].
  - intros [= <-]. exists []. symmetry. apply app_nil_r.
  - destruct (parse_typedef ts) as [d |]; cbn [of_option mbind result_bind];
      [| discriminate].
    unfold declare.
    destruct (type_ok S (td_type d)); cbn [mbind result_bind]; [| discriminate].
    destruct (decide (td_name d ∈ names S)); cbn [mbind result_bind];
      [discriminate |].
    intros [D ->]%IH. exists (d :: D). rewrite <- app_assoc. reflexivity.
Qed.

(** Declarations that are accepted after [S] are accepted after [T ++ S]
    as well, up to the first name that [T] already holds. *)
Lemma declare_all_compose (T : list typedef) (l : list (list token)) :
  ∀ S D, declare_all S l = Ok (S ++ D) →
    declare_all (T ++ S) l
    = match first_clash T (names D) with
      | Some n => Err (ERedefinition n)
      | None => Ok (T ++ S ++ D)
      end.
Proof.
  unfold first_clash.
  induction l as [| ts l IH]; intros S D; cbn [declare_all].
  - intros [= H]. rewrite <- (app_nil_r S) in H at 1.
    apply app_inv_head in H as <-. cbn. rewrite app_nil_r. reflexivity.
  - destruct (parse_typedef ts) as [d |]; cbn [of_option mbind result_bind];
      [| discriminate].
    unfold declare.
    destruct (type_ok S (td_type d)) as [[] |] eqn:Et;
      cbn [mbind result_bind]; [| discriminate].
    rewrite (type_ok_mono T S _ Et). cbn [mbind result_bind].
    destruct (decide (td_name d ∈ names S)) as [| Hs];
      cbn [mbind result_bind]; [discriminate |].
    intros H. destruct (declare_all_extends _ _ _ H) as [D' HD].
    rewrite <- app_assoc in HD. apply app_inv_head in HD as ->.
    change (names ([d] ++ D')) with (td_name d :: names D').
    change (S ++ [d] ++ D') with (S ++ d :: D') in *.
    destruct (decide (td_name d ∈ names T)) as [Ht | Ht].
    + rewrite decide_True
        by (unfold names; rewrite fmap_app; apply elem_of_app; left; exact Ht).
      rewrite filter_cons_True by exact Ht. reflexivity.
    + rewrite decide_False.
      * rewrite filter_cons_False by exact Ht.
        cbn [mbind result_bind]. rewrite <- app_assoc.
        rewrite (IH (S ++ [d]) D') by (rewrite <- app_assoc; exact H).
        rewrite <- app_assoc. reflexivity.
      * unfold names. rewrite fmap_app. intros [Hin | Hin]%elem_of_app;
          [exact (Ht Hin) | exact (Hs Hin)].
Qed.



End Composition.
